(** * A shallow embedding of [server.js]: the menu lookup tool and the
      [POST /api/chat] handler of the restaurant chatbot.

    Modelling conventions.

    - A JavaScript string is a sequence of UTF-16 code units.  The embedding
      works on [string], whose characters are read as the code units
      0..255 (Basic Latin and Latin-1 Supplement).  On that range
      [String.prototype.toLowerCase], [String.prototype.trim] and
      [String.prototype.includes] are the functions [toLowerCase], [trim] and
      [includes] below, exactly.
    - A JavaScript value is a [JsValue].  Numbers are the integral ones.
    - An object used as a dictionary is a [gmap] of its own properties; a
      property read that misses the own properties continues in
      [Object.prototype], as [[Get]] does.
    - The agent executor is an external collaborator: it is a function from
      the user input to an [AgentOutcome], a rejected promise or a resolved
      [Agent.Result] of the shape the agent library declares: an optional
      [output] string and an optional sequence of steps, each with an
      optional [observation] string.
    - The handler runs in a small monad that records the console output and
      the calls to the executor and that carries thrown errors. *)

From Stdlib Require Import ZArith NArith Bool Ascii String List Lia.
From stdpp Require Import base option gmap strings.

Local Open Scope string_scope.
Local Open Scope bool_scope.

(** ** JavaScript strings *)

Module JsString.

Definition codeUnit (c : ascii) : N := N_of_ascii c.

Definition inRange (lo hi n : N) : bool := (lo <=? n)%N && (n <=? hi)%N.

(** The code units with a lowercase mapping in this range: A-Z and the
    Latin-1 capitals U+00C0..U+00DE without the multiplication sign. *)
Definition isUpper (c : ascii) : bool :=
  let n := codeUnit c in
  inRange 65 90 n || (inRange 192 222 n && negb (n =? 215)%N).

Definition lowerCodeUnit (c : ascii) : ascii :=
  if isUpper c then ascii_of_N (codeUnit c + 32) else c.

(** [s.toLowerCase()] *)
Fixpoint toLowerCase (s : string) : string :=
  match s with
  | EmptyString => EmptyString
  | String c s' => String (lowerCodeUnit c) (toLowerCase s')
  end.

(** WhiteSpace and LineTerminator code units: TAB, LF, VT, FF, CR, SP and
    NBSP. *)
Definition isWhiteSpace (c : ascii) : bool :=
  let n := codeUnit c in
  inRange 9 13 n || (n =? 32)%N || (n =? 160)%N.

Fixpoint trimStart (s : string) : string :=
  match s with
  | EmptyString => EmptyString
  | String c s' => if isWhiteSpace c then trimStart s' else s
  end.

Fixpoint trimEnd (s : string) : string :=
  match s with
  | EmptyString => EmptyString
  | String c s' =>
      match trimEnd s' with
      | EmptyString => if isWhiteSpace c then EmptyString else String c EmptyString
      | r => String c r
      end
  end.

(** [s.trim()] *)
Definition trim (s : string) : string := trimEnd (trimStart s).

Fixpoint startsWith (s t : string) {struct t} : bool :=
  match t, s with
  | EmptyString, _ => true
  | String _ _, EmptyString => false
  | String d t', String c s' => Ascii.eqb c d && startsWith s' t'
  end.

(** [s.includes(t)] *)
Fixpoint includes (s t : string) : bool :=
  startsWith s t ||
  match s with
  | EmptyString => false
  | String _ s' => includes s' t
  end.

End JsString.
Import JsString.

(** ** Occurrences of a word in any letter case

    [includesAnyCase s t] holds when [t], a word of lowercase letters, occurs
    in [s] at some position with each of its letters in either case.  It is
    defined on the input as it is given, without lowercasing it. *)

Module AnyCase.

(** [c] is the letter [d] or its capital. *)
Definition sameLetter (c d : ascii) : bool :=
  Ascii.eqb c d ||
  (inRange 97 122 (codeUnit d) && (codeUnit c + 32 =? codeUnit d)%N).

Fixpoint startsWithAnyCase (s t : string) {struct t} : bool :=
  match t, s with
  | EmptyString, _ => true
  | String _ _, EmptyString => false
  | String d t', String c s' => sameLetter c d && startsWithAnyCase s' t'
  end.

Fixpoint includesAnyCase (s t : string) : bool :=
  startsWithAnyCase s t ||
  match s with
  | EmptyString => false
  | String _ s' => includesAnyCase s' t
  end.

(** The same notion, spelled out: [u] is [t] letter by letter, up to case. *)
Fixpoint spelledAs (u t : string) : Prop :=
  match u, t with
  | EmptyString, EmptyString => True
  | String c u', String d t' => sameLetter c d = true ∧ spelledAs u' t'
  | _, _ => False
  end.

End AnyCase.
Import AnyCase.

(** ** JavaScript values *)

Inductive JsValue : Type :=
| JUndefined
| JNull
| JBool (b : bool)
| JNumber (z : Z)
| JString (s : string)
| JBuiltin (name : string)   (* a built-in object or function, by name *)
| JObject.                   (* any other object or array *)

(** ToBoolean *)
Definition truthy (v : JsValue) : bool :=
  match v with
  | JUndefined | JNull => false
  | JBool b => b
  | JNumber z => negb (z =? 0)%Z
  | JString s => negb (String.eqb s "")
  | JBuiltin _ | JObject => true
  end.

(** [a || b] *)
Definition jsOr (a b : JsValue) : JsValue := if truthy a then a else b.

Definition isString (v : JsValue) : bool :=
  match v with JString _ => true | _ => false end.

(** The properties every object literal inherits from [Object.prototype];
    [__proto__] is the accessor that answers the prototype itself. *)
Definition ObjectPrototype : gmap string JsValue :=
  list_to_map
    [ ("constructor", JBuiltin "Object");
      ("hasOwnProperty", JBuiltin "Object.prototype.hasOwnProperty");
      ("isPrototypeOf", JBuiltin "Object.prototype.isPrototypeOf");
      ("propertyIsEnumerable", JBuiltin "Object.prototype.propertyIsEnumerable");
      ("toLocaleString", JBuiltin "Object.prototype.toLocaleString");
      ("toString", JBuiltin "Object.prototype.toString");
      ("valueOf", JBuiltin "Object.prototype.valueOf");
      ("__defineGetter__", JBuiltin "Object.prototype.__defineGetter__");
      ("__defineSetter__", JBuiltin "Object.prototype.__defineSetter__");
      ("__lookupGetter__", JBuiltin "Object.prototype.__lookupGetter__");
      ("__lookupSetter__", JBuiltin "Object.prototype.__lookupSetter__");
      ("__proto__", JBuiltin "Object.prototype") ].

(** [o[key]] for an object literal [o] whose own properties hold strings. *)
Definition Get (own : gmap string string) (key : string) : JsValue :=
  match own !! key with
  | Some s => JString s
  | None => default JUndefined (ObjectPrototype !! key)
  end.

(** ** The menu lookup tool *)

Module getMenuTool.

Definition menus : gmap string string :=
  list_to_map
    [ ("breakfast", "Paratha, Tea, Fruits, Bread with Butter");
      ("lunch", "Rice, Dal, Curry, Roti, Salad");
      ("evening", "Samosa, Chutney, Tea, Biscuits");
      ("evening snacks", "Samosa, Chutney, Tea, Biscuits");
      ("dinner", "Biryani, Raita, Papad, Salad") ].

Definition fallback : string :=
  "Sorry, we couldn't find the menu for that category. Available categories: breakfast, lunch, evening snacks, dinner".

Definition normalizedCategory (category : string) : string :=
  trim (toLowerCase category).

Definition func (category : string) : JsValue :=
  let normalizedCategory := normalizedCategory category in
  if includes normalizedCategory "evening" || includes normalizedCategory "snack"
  then Get menus "evening"
  else jsOr (Get menus normalizedCategory) (JString fallback).

End getMenuTool.

(** ** Effects of the request handler *)

Inductive JsError : Type :=
| TypeError (message : string)
| UpstreamError (message : string).

Module Agent.

Record Action : Type := { tool : string; toolInput : string }.

Record Step : Type := { action : Action; observation : option string }.

Record Result : Type :=
  { output : option string; intermediateSteps : option (list Step) }.

End Agent.

Inductive AgentOutcome : Type :=
| Resolved (response : Agent.Result)
| Rejected (err : JsError).

Inductive Logged : Type :=
| LValue (v : JsValue)
| LResult (r : Agent.Result)
| LError (e : JsError).

Inductive Event : Type :=
| ConsoleLog (label : string) (arg : Logged)
| ConsoleError (label : string) (arg : Logged)
| Invoke (userInput : JsValue).

(** A computation writes a trace of events and ends in a value or in a
    thrown error. *)
Definition M (A : Type) : Type := (list Event * (JsError + A))%type.

Global Instance M_ret : MRet M := λ A a, ([], inr a).

Global Instance M_bind : MBind M := λ A B f m,
  match m with
  | (t, inl e) => (t, inl e)
  | (t, inr a) => let '(t', r) := f a in ((t ++ t')%list, r)
  end.

Definition emit (ev : Event) : M unit := ([ev], inr tt).

Definition throw {A : Type} (e : JsError) : M A := ([], inl e).

(** [try { body } catch (err) { handler }] *)
Definition try_catch {A : Type} (body : M A) (handler : JsError → M A) : M A :=
  match body with
  | (t, inl e) => let '(t', r) := handler e in ((t ++ t')%list, r)
  | (t, inr a) => (t, inr a)
  end.

(** ** HTTP responses *)

Record ChatResponse : Type := { output : JsValue }.

Record HttpResponse : Type := { status : nat; body : ChatResponse }.

(** [res.json(b)]: the status stays at its default. *)
Definition res_json (b : ChatResponse) : HttpResponse :=
  {| status := 200; body := b |}.

(** [res.status(code).json(b)] *)
Definition res_status_json (code : nat) (b : ChatResponse) : HttpResponse :=
  {| status := code; body := b |}.

(** The parsed JSON body of a request; a missing [input] reads as
    [JUndefined]. *)
Record ChatRequest : Type := { input : JsValue }.

(** ** The [POST /api/chat] handler *)

(** [v.trim()] *)
Definition call_trim (v : JsValue) : M string :=
  match v with
  | JString s => mret (trim s)
  | JUndefined | JNull => throw (TypeError "Cannot read properties of undefined (reading 'trim')")
  | _ => throw (TypeError "userInput.trim is not a function")
  end.

Definition ofOption (o : option string) : JsValue :=
  match o with
  | Some s => JString s
  | None => JUndefined
  end.

Definition sentinel : string := "agent stopped due to max iterations".

Definition couldnt_process : string :=
  "I couldn't process your request. Please try asking for a specific menu like 'breakfast menu' or 'evening snacks menu'.".

Definition went_wrong : string :=
  "Sorry, something went wrong. Please try again with a specific menu request.".

Section Handler.

Variable executor : JsValue → AgentOutcome.

(** [await executor.invoke({ input: userInput })] *)
Definition invoke (userInput : JsValue) : M Agent.Result :=
  emit (Invoke userInput) ;;
  match executor userInput with
  | Resolved response => mret response
  | Rejected err => throw err
  end.

(** [response.output && !response.output.includes(sentinel)] *)
Definition completed (response : Agent.Result) : bool :=
  match Agent.output response with
  | Some out => truthy (JString out) && negb (includes out sentinel)
  | None => false
  end.

(** The body of the [try] block after the agent has answered. *)
Definition interpret (response : Agent.Result) : HttpResponse :=
  if completed response
  then res_json {| output := ofOption (Agent.output response) |}
  else
    let final :=
      res_status_json 500 {| output := JString couldnt_process |} in
    match Agent.intermediateSteps response with
    | Some steps =>
        if (0 <? length steps)%nat
        then
          match steps !! (length steps - 1)%nat with
          | Some lastStep =>
              if truthy (ofOption (Agent.observation lastStep))
              then res_json {| output := ofOption (Agent.observation lastStep) |}
              else final
          | None => final
          end
        else final
    | None => final
    end.

Definition post_api_chat (req : ChatRequest) : M HttpResponse :=
  let userInput := input req in
  emit (ConsoleLog "User input:" (LValue userInput)) ;;
  invalid ← (if negb (truthy userInput) then mret true
             else trimmed ← call_trim userInput; mret (String.eqb trimmed "")) ;
  if (invalid : bool)
  then mret (res_status_json 400 {| output := JString "Please provide a valid input." |})
  else
    try_catch
      (response ← invoke userInput ;
       emit (ConsoleLog "Agent full response:" (LResult response)) ;;
       mret (interpret response))
      (λ err,
        emit (ConsoleError "Error during agent execution:" (LError err)) ;;
        mret (res_status_json 500 {| output := JString went_wrong |})).

End Handler.

(** ** Notions used by the statements *)

(** The [input] field is missing, or is a string that trims to nothing. *)
Definition missingOrBlank (v : JsValue) : Prop :=
  v = JUndefined ∨ ∃ s, v = JString s ∧ trim s = "".

(** The observation of the last intermediate step, when there is one. *)
Definition lastObservation (response : Agent.Result) : option string :=
  steps ← Agent.intermediateSteps response;
  lastStep ← last steps;
  Agent.observation lastStep.

(** The response body is [{output: <a string>}]. *)
Definition outputIsString (r : HttpResponse) : Prop :=
  ∃ s, output (body r) = JString s.

Definition couldnt_process_response : HttpResponse :=
  res_status_json 500 {| output := JString couldnt_process |}.

(** The primary path as the specification words it: an [output] that is
    present and without the sentinel is answered with 200 and that output. *)
Definition primary_path_as_stated : Prop :=
  ∀ (executor : JsValue → AgentOutcome) (s : string)
    (response : Agent.Result) (out : string),
    trim s ≠ "" →
    executor (JString s) = Resolved response →
    Agent.output response = Some out →
    includes out sentinel = false →
    snd (post_api_chat executor {| input := JString s |}) =
    inr {| status := 200; body := {| output := JString out |} |}.

(** The fallback path as the specification words it: when the primary
    condition fails and the last intermediate step has an observation, the
    answer is 200 with it. *)
Definition fallback_path_as_stated : Prop :=
  ∀ (executor : JsValue → AgentOutcome) (s : string)
    (response : Agent.Result) (steps : list Agent.Step)
    (lastStep : Agent.Step) (obs : string),
    trim s ≠ "" →
    executor (JString s) = Resolved response →
    ¬ (∃ out, Agent.output response = Some out ∧ includes out sentinel = false) →
    Agent.intermediateSteps response = Some steps →
    last steps = Some lastStep →
    Agent.observation lastStep = Some obs →
    snd (post_api_chat executor {| input := JString s |}) =
    inr {| status := 200; body := {| output := JString obs |} |}.

(** Every code unit of [s] satisfies [p]. *)
Fixpoint allCodeUnits (p : ascii → bool) (s : string) : bool :=
  match s with
  | EmptyString => true
  | String c s' => p c && allCodeUnits p s'
  end.

(** [s] holds no capital letter. *)
Definition noCapital (s : string) : bool :=
  allCodeUnits (λ c, negb (isUpper c)) s.

(** [s] is made of white space only (possibly empty). *)
Definition onlyWhiteSpace (s : string) : bool := allCodeUnits isWhiteSpace s.

(** The inputs of the calls to the executor that a trace records, in order. *)
Fixpoint invocations (trace : list Event) : list JsValue :=
  match trace with
  | [] => []
  | Invoke userInput :: trace' => userInput :: invocations trace'
  | _ :: trace' => invocations trace'
  end.

(** ** Sample collaborators *)

Definition outage : JsValue → AgentOutcome :=
  λ _, Rejected (UpstreamError "503 Service Unavailable").

Definition answering (response : Agent.Result) : JsValue → AgentOutcome :=
  λ _, Resolved response.

Definition eveningStep (observation : option string) : Agent.Step :=
  {| Agent.action := {| Agent.tool := "getMenuTool"; Agent.toolInput := "evening" |};
     Agent.observation := observation |}.

(** * Properties *)

(** ** Strings *)

Section StringFacts.

Example toLowerCase_sample :
  toLowerCase "Evening SNACKS, 7 PM" = "evening snacks, 7 pm".
Proof. reflexivity. Qed.

Example trim_sample :
  trim (String "009" (String "010" "  a b  ")) = "a b" ∧ trim "   " = "" ∧ trim "" = "".
Proof. repeat split. Qed.

Example includes_sample :
  includes "evening snacks" "snack" = true ∧
  includes "snac" "snack" = false ∧
  includes "" "" = true.
Proof. repeat split. Qed.

Lemma append_nil_l (b : string) : "" ++ b = b.
Proof. reflexivity. Qed.

Lemma append_cons (x : ascii) (a b : string) :
  String x a ++ b = String x (a ++ b).
Proof. reflexivity. Qed.

Lemma append_assoc (a b c : string) : (a ++ b) ++ c = a ++ (b ++ c).
Proof.
  induction a as [|x a IH]; [reflexivity |].
  now rewrite !append_cons, IH.
Qed.

Lemma includes_unfold (s t : string) :
  includes s t =
  startsWith s t || match s with EmptyString => false | String _ s' => includes s' t end.
Proof. destruct s; reflexivity. Qed.

Lemma startsWith_app (t b : string) : startsWith (t ++ b) t = true.
Proof.
  induction t as [|d t IH]; [reflexivity |].
  rewrite append_cons. simpl. now rewrite Ascii.eqb_refl, IH.
Qed.

Lemma startsWith_decompose (s t : string) :
  startsWith s t = true → ∃ b, s = t ++ b.
Proof.
  revert s; induction t as [|d t IH]; intros s H.
  - now exists s.
  - destruct s as [|c s]; simpl in H; [discriminate |].
    apply andb_prop in H as [Hc Hs].
    apply Ascii.eqb_eq in Hc as ->.
    destruct (IH _ Hs) as [b ->]. now exists b.
Qed.

Lemma includes_app (a t b : string) : includes (a ++ t ++ b) t = true.
Proof.
  induction a as [|x a IH].
  - rewrite append_nil_l, includes_unfold, startsWith_app. reflexivity.
  - rewrite append_cons, includes_unfold, IH. apply orb_true_r.
Qed.

Lemma includes_decompose (s t : string) :
  includes s t = true → ∃ a b, s = a ++ t ++ b.
Proof.
  induction s as [|c s IH]; rewrite includes_unfold; intros H.
  - rewrite orb_false_r in H.
    destruct (startsWith_decompose _ _ H) as [b Hb]. now exists "", b.
  - apply orb_prop in H as [H | H].
    + destruct (startsWith_decompose _ _ H) as [b Hb]. now exists "", b.
    + destruct (IH H) as (a & b & ->). now exists (String c a), b.
Qed.

(** [includes] is the substring test. *)
Lemma includes_spec (s t : string) :
  includes s t = true ↔ ∃ a b, s = a ++ t ++ b.
Proof.
  split; [apply includes_decompose |].
  intros (a & b & ->). apply includes_app.
Qed.

Lemma trimStart_keeps (a : string) (x : ascii) (r : string) :
  isWhiteSpace x = false →
  ∃ a', trimStart (a ++ String x r) = a' ++ String x r.
Proof.
  intros Hx. induction a as [|c a IH].
  - rewrite append_nil_l. simpl. rewrite Hx. now exists "".
  - rewrite append_cons. simpl.
    destruct (isWhiteSpace c); [exact IH |].
    now exists (String c a).
Qed.

Lemma trimEnd_cons (x : ascii) (b : string) :
  isWhiteSpace x = false → trimEnd (String x b) = String x (trimEnd b).
Proof. intros Hx. simpl. rewrite Hx. now destruct (trimEnd b). Qed.

Lemma trimEnd_keeps (a : string) (x : ascii) (b : string) :
  isWhiteSpace x = false →
  ∃ b', trimEnd (a ++ String x b) = a ++ String x b'.
Proof.
  intros Hx. induction a as [|c a [b' IH]].
  - exists (trimEnd b). now apply trimEnd_cons.
  - exists b'. rewrite !append_cons. cbn [trimEnd]. rewrite IH.
    destruct a; reflexivity.
Qed.

(** Trimming keeps every occurrence of a word that neither starts nor ends
    with white space. *)
Lemma trim_includes (s : string) (x y : ascii) (m m' : string) :
  isWhiteSpace x = false → isWhiteSpace y = false →
  String x m = m' ++ String y "" →
  includes s (String x m) = true →
  includes (trim s) (String x m) = true.
Proof.
  intros Hx Hy Hm H.
  apply includes_decompose in H as (a & b & ->).
  unfold trim. rewrite append_cons.
  destruct (trimStart_keeps a x (m ++ b) Hx) as [a' ->].
  rewrite <- append_cons, Hm, append_assoc, <- (append_assoc a').
  rewrite append_cons, append_nil_l.
  destruct (trimEnd_keeps (a' ++ m') y b Hy) as [b'' ->].
  rewrite append_assoc.
  change (String y b'') with (String y "" ++ b'').
  rewrite <- (append_assoc m'), <- Hm.
  apply includes_app.
Qed.

Lemma sameLetter_lower (c d : ascii) :
  lowerCodeUnit d = d → sameLetter c d = true → lowerCodeUnit c = d.
Proof.
  intros Hd H. unfold sameLetter in H.
  apply orb_prop in H as [H | H].
  - apply Ascii.eqb_eq in H. now subst.
  - apply andb_prop in H as [Hr He].
    apply N.eqb_eq in He.
    unfold inRange in Hr. apply andb_prop in Hr as [Hlo Hhi].
    apply N.leb_le in Hlo, Hhi.
    unfold lowerCodeUnit, isUpper, inRange.
    replace ((65 <=? codeUnit c)%N) with true by (symmetry; apply N.leb_le; lia).
    replace ((codeUnit c <=? 90)%N) with true by (symmetry; apply N.leb_le; lia).
    cbn [andb orb]. rewrite He. apply ascii_N_embedding.
Qed.

Lemma startsWithAnyCase_lower (s t : string) :
  toLowerCase t = t →
  startsWithAnyCase s t = true → startsWith (toLowerCase s) t = true.
Proof.
  revert s; induction t as [|d t IH]; intros s Ht H; [reflexivity |].
  destruct s as [|c s]; simpl in H; [discriminate |].
  apply andb_prop in H as [Hc Hs].
  simpl in Ht. injection Ht as Hd Ht.
  simpl. rewrite (sameLetter_lower c d Hd Hc), Ascii.eqb_refl.
  now apply IH.
Qed.

Lemma includesAnyCase_lower (s t : string) :
  toLowerCase t = t →
  includesAnyCase s t = true → includes (toLowerCase s) t = true.
Proof.
  intros Ht. induction s as [|c s IH]; intros H.
  - simpl in H. rewrite orb_false_r in H.
    apply (startsWithAnyCase_lower "" t Ht) in H.
    simpl in *. now rewrite H.
  - cbn [includesAnyCase] in H. rewrite includes_unfold.
    apply orb_prop in H as [H | H].
    + now rewrite (startsWithAnyCase_lower _ _ Ht H).
    + cbn [toLowerCase]. rewrite (IH H). apply orb_true_r.
Qed.

Lemma startsWithAnyCase_spec (s t : string) :
  startsWithAnyCase s t = true ↔ ∃ u b, s = u ++ b ∧ spelledAs u t.
Proof.
  revert s; induction t as [|d t IH]; intros s; split.
  - intros _. now exists "", s.
  - reflexivity.
  - destruct s as [|c s]; simpl; [discriminate |].
    intros H. apply andb_prop in H as [Hc Hs].
    apply IH in Hs as (u & b & -> & Hu).
    now exists (String c u), b.
  - intros (u & b & -> & Hu).
    destruct u as [|c u]; simpl in Hu; [contradiction |].
    destruct Hu as [Hc Hu]. simpl. rewrite Hc. simpl.
    apply IH. now exists u, b.
Qed.

(** [includesAnyCase] finds the word at any position, in any case. *)
Lemma includesAnyCase_spec (s t : string) :
  includesAnyCase s t = true ↔ ∃ a u b, s = a ++ u ++ b ∧ spelledAs u t.
Proof.
  induction s as [|c s IH]; cbn [includesAnyCase].
  - rewrite orb_false_r, startsWithAnyCase_spec. split.
    + intros (u & b & E & Hu). now exists "", u, b.
    + intros (a & u & b & E & Hu). exists u, b. split; [| exact Hu].
      destruct a; [exact E | discriminate].
  - rewrite orb_true_iff, startsWithAnyCase_spec, IH. split.
    + intros [(u & b & E & Hu) | (a & u & b & -> & Hu)].
      * now exists "", u, b.
      * now exists (String c a), u, b.
    + intros (a & u & b & E & Hu). destruct a as [|c' a].
      * left. now exists u, b.
      * right. injection E as _ ->. now exists a, u, b.
Qed.

End StringFacts.

(** ** The menu lookup tool *)

Section MenuTool.

Import getMenuTool.

Lemma menus_entries :
  menus !! "breakfast" = Some "Paratha, Tea, Fruits, Bread with Butter" ∧
  menus !! "lunch" = Some "Rice, Dal, Curry, Roti, Salad" ∧
  menus !! "evening" = Some "Samosa, Chutney, Tea, Biscuits" ∧
  menus !! "evening snacks" = Some "Samosa, Chutney, Tea, Biscuits" ∧
  menus !! "dinner" = Some "Biryani, Raita, Papad, Salad".
Proof. repeat split; vm_compute; reflexivity. Qed.

Example func_unknown_sample :
  func "brunch" = JString fallback ∧ func "" = JString fallback.
Proof. split; vm_compute; reflexivity. Qed.

Lemma func_evening_branch (category : string) :
  includes (normalizedCategory category) "evening"
  || includes (normalizedCategory category) "snack" = true →
  func category = Get menus "evening".
Proof. intros H. unfold func. cbv zeta. now rewrite H. Qed.

Lemma func_lookup_branch (category : string) :
  includes (normalizedCategory category) "evening" = false →
  includes (normalizedCategory category) "snack" = false →
  func category = jsOr (Get menus (normalizedCategory category)) (JString fallback).
Proof. intros H1 H2. unfold func. cbv zeta. now rewrite H1, H2. Qed.

Lemma normalizedCategory_includes (category : string) (x y : ascii) (m m' : string) :
  isWhiteSpace x = false → isWhiteSpace y = false →
  String x m = m' ++ String y "" →
  toLowerCase (String x m) = String x m →
  includesAnyCase category (String x m) = true →
  includes (normalizedCategory category) (String x m) = true.
Proof.
  intros Hx Hy Hm Hl H. unfold normalizedCategory.
  apply (trim_includes _ x y m m' Hx Hy Hm).
  now apply includesAnyCase_lower.
Qed.

(** With the inherited properties out of the way the lookup answers the
    fallback message for every unknown category. *)
Lemma func_fallback_unless_inherited (category : string) :
  let key := normalizedCategory category in
  includes key "evening" = false →
  includes key "snack" = false →
  menus !! key = None →
  ObjectPrototype !! key = None →
  func category = JString fallback.
Proof.
  intros key H1 H2 Hown Hproto.
  rewrite (func_lookup_branch _ H1 H2).
  unfold Get. fold key. now rewrite Hown, Hproto.
Qed.

(** The lookup answers a string unless the normalized category names a
    property inherited from [Object.prototype]. *)
Lemma func_string_unless_inherited (category : string) :
  ObjectPrototype !! normalizedCategory category = None →
  isString (func category) = true.
Proof.
  intros Hproto. unfold func. cbv zeta.
  destruct (includes _ "evening" || includes _ "snack"); [reflexivity |].
  unfold Get. rewrite Hproto.
  destruct (menus !! _) as [d|]; [| reflexivity].
  unfold jsOr. now destruct (truthy (JString d)).
Qed.

End MenuTool.

(** C2: a category that normalizes (lowercase, then trim) to "breakfast",
    "lunch" or "dinner" is answered with exactly the description configured
    in [menus] for that key, whatever the letter case and the surrounding
    white space of the input were. *)
Theorem func_meal_category (category key : string) :
  key = "breakfast" ∨ key = "lunch" ∨ key = "dinner" →
  getMenuTool.normalizedCategory category = key →
  ∃ description,
    getMenuTool.menus !! key = Some description ∧
    getMenuTool.func category = JString description.
Proof.
  intros Hkey Hnorm.
  unfold getMenuTool.func. cbv zeta. rewrite Hnorm.
  destruct Hkey as [-> | [-> | ->]]; eexists; split; vm_compute; reflexivity.
Qed.

Lemma func_meal_category_witness :
  ∃ description,
    getMenuTool.menus !! "breakfast" = Some description ∧
    getMenuTool.func "  BreakFast " = JString description.
Proof.
  apply (func_meal_category "  BreakFast " "breakfast").
  - left. reflexivity.
  - vm_compute. reflexivity.
Defined.

(** C3: an input in which "evening" or "snack" occurs, in any letter case
    and at any position, is answered like the category "evening". *)
Theorem func_evening_or_snack (category : string) :
  includesAnyCase category "evening" = true ∨
  includesAnyCase category "snack" = true →
  getMenuTool.func category = getMenuTool.func "evening".
Proof.
  intros H.
  change (getMenuTool.func "evening")
    with (Get getMenuTool.menus "evening").
  apply func_evening_branch.
  apply orb_true_iff.
  destruct H as [H | H]; [left | right].
  - now apply (normalizedCategory_includes category "e" "g" "vening" "evenin").
  - now apply (normalizedCategory_includes category "s" "k" "nack" "snac").
Qed.

Lemma func_evening_or_snack_witness :
  getMenuTool.func "Evening Snacks" = getMenuTool.func "evening" ∧
  getMenuTool.func "  snack  " = getMenuTool.func "evening".
Proof.
  split.
  - apply (func_evening_or_snack "Evening Snacks"). left. vm_compute. reflexivity.
  - apply (func_evening_or_snack "  snack  "). right. vm_compute. reflexivity.
Defined.

(** C4: the category "constructor" is no configured key and contains
    neither "evening" nor "snack", and yet the lookup does not answer the
    fallback message: the property read finds [Object] on the prototype. *)
Theorem func_constructor_not_fallback :
  let key := getMenuTool.normalizedCategory "constructor" in
  getMenuTool.menus !! key = None ∧
  includes key "evening" = false ∧
  includes key "snack" = false ∧
  getMenuTool.func "constructor" = JBuiltin "Object" ∧
  getMenuTool.func "constructor" ≠ JString getMenuTool.fallback.
Proof. repeat split; vm_compute; (reflexivity || discriminate). Qed.

(** C5: for the categories "constructor" and "__proto__" the tool function
    returns normally, and what it returns is not a string. *)
Theorem func_inherited_not_string :
  getMenuTool.func "constructor" = JBuiltin "Object" ∧
  isString (getMenuTool.func "constructor") = false ∧
  getMenuTool.func " __PROTO__ " = JBuiltin "Object.prototype" ∧
  isString (getMenuTool.func " __PROTO__ ") = false.
Proof. repeat split; vm_compute; reflexivity. Qed.

(** ** The request handler *)

Section HandlerFacts.

Variable executor : JsValue → AgentOutcome.

Lemma trim_nonblank (s : string) :
  trim s ≠ "" → truthy (JString s) = true ∧ String.eqb (trim s) "" = false.
Proof.
  intros H. split.
  - destruct s; [now contradiction H | reflexivity].
  - now apply String.eqb_neq.
Qed.

(** A request with a non-blank string reaches the executor, and the
    handler continues with what the executor answers. *)
Lemma post_api_chat_invokes (s : string) :
  trim s ≠ "" →
  post_api_chat executor {| input := JString s |} =
  match executor (JString s) with
  | Resolved response =>
      ([ConsoleLog "User input:" (LValue (JString s));
        Invoke (JString s);
        ConsoleLog "Agent full response:" (LResult response)],
       inr (interpret response))
  | Rejected err =>
      ([ConsoleLog "User input:" (LValue (JString s));
        Invoke (JString s);
        ConsoleError "Error during agent execution:" (LError err)],
       inr (res_status_json 500 {| output := JString went_wrong |}))
  end.
Proof.
  intros H. destruct (trim_nonblank s H) as [Ht Hb].
  unfold post_api_chat, invoke. cbn [input].
  rewrite Ht. cbn [negb call_trim].
  unfold mbind, M_bind, mret, M_ret, emit, try_catch, throw. cbn.
  rewrite Hb.
  destruct (executor (JString s)); reflexivity.
Qed.

Lemma post_api_chat_falsy (v : JsValue) :
  truthy v = false →
  post_api_chat executor {| input := v |} =
  ([ConsoleLog "User input:" (LValue v)],
   inr (res_status_json 400 {| output := JString "Please provide a valid input." |})).
Proof.
  intros H. unfold post_api_chat. cbn [input]. rewrite H. reflexivity.
Qed.

Lemma post_api_chat_blank_string (s : string) :
  trim s = "" →
  post_api_chat executor {| input := JString s |} =
  ([ConsoleLog "User input:" (LValue (JString s))],
   inr (res_status_json 400 {| output := JString "Please provide a valid input." |})).
Proof.
  intros H. destruct (truthy (JString s)) eqn:Ht.
  - unfold post_api_chat. cbn [input]. rewrite Ht. cbn [negb call_trim].
    unfold mbind, M_bind, mret, M_ret, emit. cbn. rewrite H. reflexivity.
  - now apply post_api_chat_falsy.
Qed.

Lemma interpret_completed (response : Agent.Result) (out : string) :
  Agent.output response = Some out →
  out ≠ "" →
  includes out sentinel = false →
  interpret response = res_json {| output := JString out |}.
Proof.
  intros Hout Hne Hs. unfold interpret, completed. rewrite Hout.
  cbn [truthy ofOption]. apply String.eqb_neq in Hne. now rewrite Hne, Hs.
Qed.

Lemma interpret_fallback (response : Agent.Result) :
  completed response = false →
  interpret response =
  match lastObservation response with
  | Some obs =>
      if truthy (JString obs) then res_json {| output := JString obs |}
      else couldnt_process_response
  | None => couldnt_process_response
  end.
Proof.
  intros Hc. unfold interpret, lastObservation. rewrite Hc.
  destruct (Agent.intermediateSteps response) as [steps|]; [| reflexivity].
  cbn [mbind option_bind]. rewrite last_lookup.
  destruct steps as [|st steps]; [reflexivity |].
  replace (length (st :: steps) - 1)%nat with (Init.Nat.pred (length (st :: steps))) by (simpl; lia).
  cbn [Nat.ltb Nat.leb length].
  destruct ((st :: steps) !! _) as [lastStep|]; [| reflexivity].
  cbn [mbind option_bind].
  destruct (Agent.observation lastStep) as [obs|]; reflexivity.
Qed.

(** Every answer of the executor is turned into a body with a string. *)
Lemma interpret_outputIsString (response : Agent.Result) :
  outputIsString (interpret response).
Proof.
  destruct (completed response) eqn:Hc.
  - unfold interpret. rewrite Hc. unfold completed in Hc.
    destruct (Agent.output response) as [out|]; [| discriminate].
    now exists out.
  - rewrite (interpret_fallback _ Hc).
    destruct (lastObservation response) as [obs|].
    + destruct (truthy (JString obs)); [now exists obs | now eexists].
    + now eexists.
Qed.

(** When [input] is missing, falsy or a string, the handler answers, and
    the body it sends holds a string in [output]. *)
Lemma post_api_chat_outputIsString (v : JsValue) :
  truthy v = false ∨ isString v = true →
  ∃ trace response,
    post_api_chat executor {| input := v |} = (trace, inr response) ∧
    outputIsString response.
Proof.
  intros [H | H].
  - rewrite (post_api_chat_falsy v H). do 2 eexists. split; [reflexivity |].
    now eexists.
  - destruct v as [| | | |s| |]; try discriminate.
    destruct (String.eqb_spec (trim s) "") as [E | E].
    + rewrite (post_api_chat_blank_string s E). do 2 eexists.
      split; [reflexivity | now eexists].
    + rewrite (post_api_chat_invokes s E).
      destruct (executor (JString s)) as [response | err];
        do 2 eexists; (split; [reflexivity |]).
      * apply interpret_outputIsString.
      * now eexists.
Qed.

End HandlerFacts.

Example post_api_chat_gave_up_without_steps :
  snd (post_api_chat
         (answering {| Agent.output := Some "agent stopped due to max iterations.";
                       Agent.intermediateSteps := Some [] |})
         {| input := JString "what's for dinner?" |}) =
  inr couldnt_process_response.
Proof. reflexivity. Qed.

(** C1: a request whose [input] is the number 5 gets no [{output: string}]
    body from the handler: [userInput.trim] is not a function, the error is
    thrown before the [try] block and leaves the handler uncaught, whatever
    the executor would have answered. *)
Theorem post_api_chat_number_uncaught (executor : JsValue → AgentOutcome) :
  post_api_chat executor {| input := JNumber 5 |} =
  ([ConsoleLog "User input:" (LValue (JNumber 5))],
   inl (TypeError "userInput.trim is not a function")).
Proof. reflexivity. Qed.

(** C6: when [input] is missing or blank after trimming, the handler logs
    the input, answers 400 with the "valid input" message and ends; the
    executor is not invoked. *)
Theorem post_api_chat_missing_or_blank
    (executor : JsValue → AgentOutcome) (req : ChatRequest) :
  missingOrBlank (input req) →
  post_api_chat executor req =
  ([ConsoleLog "User input:" (LValue (input req))],
   inr {| status := 400;
          body := {| output := JString "Please provide a valid input." |} |}) ∧
  ∀ userInput, Invoke userInput ∉ fst (post_api_chat executor req).
Proof.
  intros H. destruct req as [v]. cbn [input] in *.
  assert (E : post_api_chat executor {| input := v |} =
    ([ConsoleLog "User input:" (LValue v)],
     inr (res_status_json 400 {| output := JString "Please provide a valid input." |}))).
  { destruct H as [-> | (s & -> & Hs)].
    - now apply post_api_chat_falsy.
    - now apply post_api_chat_blank_string. }
  split; [exact E |].
  intros userInput. rewrite E. cbn [fst].
  intros Hin. inversion Hin as [| ? ? ? Hnil]; subst. inversion Hnil.
Qed.

Lemma post_api_chat_missing_or_blank_witness :
  post_api_chat outage {| input := JString "  " |} =
  ([ConsoleLog "User input:" (LValue (JString "  "))],
   inr {| status := 400;
          body := {| output := JString "Please provide a valid input." |} |}) ∧
  ∀ userInput,
    Invoke userInput ∉ fst (post_api_chat outage {| input := JString "  " |}).
Proof.
  apply (post_api_chat_missing_or_blank outage {| input := JString "  " |}).
  right. exists "  ". split; reflexivity.
Defined.

(** C7: for a non-blank input, when the executor throws, the handler logs
    the error and answers 500 with exactly the generic retry message; the
    body is that constant, the same for every error. *)
Theorem post_api_chat_executor_throws
    (executor : JsValue → AgentOutcome) (s : string) (err : JsError) :
  trim s ≠ "" →
  executor (JString s) = Rejected err →
  post_api_chat executor {| input := JString s |} =
  ([ConsoleLog "User input:" (LValue (JString s));
    Invoke (JString s);
    ConsoleError "Error during agent execution:" (LError err)],
   inr {| status := 500;
          body := {| output := JString "Sorry, something went wrong. Please try again with a specific menu request." |} |}).
Proof.
  intros Hs He. rewrite (post_api_chat_invokes executor s Hs), He. reflexivity.
Qed.

Lemma post_api_chat_executor_throws_witness :
  post_api_chat outage {| input := JString "what's for dinner?" |} =
  ([ConsoleLog "User input:" (LValue (JString "what's for dinner?"));
    Invoke (JString "what's for dinner?");
    ConsoleError "Error during agent execution:"
      (LError (UpstreamError "503 Service Unavailable"))],
   inr {| status := 500;
          body := {| output := JString "Sorry, something went wrong. Please try again with a specific menu request." |} |}).
Proof.
  apply (post_api_chat_executor_throws outage "what's for dinner?").
  - vm_compute. discriminate.
  - reflexivity.
Defined.

(** C8, counterexample: the agent result [{output: ""}] has its output
    present and free of the sentinel, and the handler answers 500. *)
Lemma empty_output_not_primary :
  let response := {| Agent.output := Some ""; Agent.intermediateSteps := None |} in
  includes "" sentinel = false ∧
  snd (post_api_chat (answering response) {| input := JString "menu" |}) =
  inr {| status := 500; body := {| output := JString couldnt_process |} |} ∧
  ¬ primary_path_as_stated.
Proof.
  intros response. split; [reflexivity |]. split; [reflexivity |].
  intros H.
  specialize (H (answering response) "menu" response "").
  assert (E : snd (post_api_chat (answering response) {| input := JString "menu" |}) =
              inr {| status := 200; body := {| output := JString "" |} |}).
  { apply H; [vm_compute; discriminate | reflexivity | reflexivity | reflexivity]. }
  vm_compute in E. discriminate E.
Qed.

(** C8, amended: an [output] that is present, not empty and without the
    sentinel is answered with 200 and that output, whatever
    [intermediateSteps] holds. *)
Theorem post_api_chat_primary
    (executor : JsValue → AgentOutcome) (s out : string)
    (steps : option (list Agent.Step)) :
  let response := {| Agent.output := Some out; Agent.intermediateSteps := steps |} in
  trim s ≠ "" →
  executor (JString s) = Resolved response →
  out ≠ "" →
  includes out sentinel = false →
  post_api_chat executor {| input := JString s |} =
  ([ConsoleLog "User input:" (LValue (JString s));
    Invoke (JString s);
    ConsoleLog "Agent full response:" (LResult response)],
   inr {| status := 200; body := {| output := JString out |} |}).
Proof.
  intros response Hs He Hne Hsent.
  rewrite (post_api_chat_invokes executor s Hs), He.
  now rewrite (interpret_completed response out eq_refl Hne Hsent).
Qed.

Lemma post_api_chat_primary_witness :
  let response :=
    {| Agent.output := Some "Tonight: Biryani, Raita, Papad, Salad";
       Agent.intermediateSteps := Some [eveningStep None] |} in
  post_api_chat (answering response) {| input := JString "what's for dinner?" |} =
  ([ConsoleLog "User input:" (LValue (JString "what's for dinner?"));
    Invoke (JString "what's for dinner?");
    ConsoleLog "Agent full response:" (LResult response)],
   inr {| status := 200;
          body := {| output := JString "Tonight: Biryani, Raita, Papad, Salad" |} |}).
Proof.
  apply (post_api_chat_primary
           (answering {| Agent.output := Some "Tonight: Biryani, Raita, Papad, Salad";
                         Agent.intermediateSteps := Some [eveningStep None] |})
           "what's for dinner?" "Tonight: Biryani, Raita, Papad, Salad"
           (Some [eveningStep None])).
  - vm_compute. discriminate.
  - reflexivity.
  - discriminate.
  - vm_compute. reflexivity.
Defined.

(** C9, counterexample: the agent result has no output and one step whose
    observation is the empty string, and the handler answers 500. *)
Lemma empty_observation_not_fallback :
  let response :=
    {| Agent.output := None;
       Agent.intermediateSteps := Some [eveningStep (Some "")] |} in
  snd (post_api_chat (answering response) {| input := JString "menu" |}) =
  inr {| status := 500; body := {| output := JString couldnt_process |} |} ∧
  ¬ fallback_path_as_stated.
Proof.
  intros response. split; [reflexivity |].
  intros H.
  specialize (H (answering response) "menu" response
                [eveningStep (Some "")] (eveningStep (Some "")) "").
  assert (E : snd (post_api_chat (answering response) {| input := JString "menu" |}) =
              inr {| status := 200; body := {| output := JString "" |} |}).
  { apply H; try reflexivity.
    - vm_compute. discriminate.
    - intros (out & Hout & _). discriminate Hout. }
  vm_compute in E. discriminate E.
Qed.

(** C9, amended: when the handler's primary test fails (the output is
    absent, empty or holds the sentinel), [intermediateSteps] is a non-empty
    sequence and its last element has a non-empty observation, the answer is
    200 with that observation. *)
Theorem post_api_chat_fallback
    (executor : JsValue → AgentOutcome) (s : string)
    (response : Agent.Result) (steps : list Agent.Step)
    (lastStep : Agent.Step) (obs : string) :
  trim s ≠ "" →
  executor (JString s) = Resolved response →
  completed response = false →
  Agent.intermediateSteps response = Some steps →
  last steps = Some lastStep →
  Agent.observation lastStep = Some obs →
  obs ≠ "" →
  post_api_chat executor {| input := JString s |} =
  ([ConsoleLog "User input:" (LValue (JString s));
    Invoke (JString s);
    ConsoleLog "Agent full response:" (LResult response)],
   inr {| status := 200; body := {| output := JString obs |} |}).
Proof.
  intros Hs He Hc Hsteps Hlast Hobs Hne.
  rewrite (post_api_chat_invokes executor s Hs), He.
  rewrite (interpret_fallback response Hc).
  unfold lastObservation. rewrite Hsteps. cbn [mbind option_bind].
  rewrite Hlast. cbn [mbind option_bind]. rewrite Hobs.
  cbn [truthy]. apply String.eqb_neq in Hne. now rewrite Hne.
Qed.

Lemma post_api_chat_fallback_witness :
  let response :=
    {| Agent.output := Some "agent stopped due to max iterations.";
       Agent.intermediateSteps :=
         Some [eveningStep None; eveningStep (Some "Samosa, Chutney, Tea, Biscuits")] |} in
  post_api_chat (answering response) {| input := JString "any snacks?" |} =
  ([ConsoleLog "User input:" (LValue (JString "any snacks?"));
    Invoke (JString "any snacks?");
    ConsoleLog "Agent full response:" (LResult response)],
   inr {| status := 200;
          body := {| output := JString "Samosa, Chutney, Tea, Biscuits" |} |}).
Proof.
  intros response.
  apply (post_api_chat_fallback (answering response) "any snacks?" response
           [eveningStep None; eveningStep (Some "Samosa, Chutney, Tea, Biscuits")]
           (eveningStep (Some "Samosa, Chutney, Tea, Biscuits"))
           "Samosa, Chutney, Tea, Biscuits").
  - vm_compute. discriminate.
  - reflexivity.
  - vm_compute. reflexivity.
  - reflexivity.
  - reflexivity.
  - reflexivity.
  - discriminate.
Defined.

(** C10: an output that is the empty string counts as absent.  When the
    output is the empty string and the last intermediate step's observation is
    absent or the empty string, the handler answers 500 with the "couldn't
    process" message, not 200 with an empty output. *)
Theorem post_api_chat_empty_output
    (executor : JsValue → AgentOutcome) (s : string) (response : Agent.Result) :
  trim s ≠ "" →
  executor (JString s) = Resolved response →
  Agent.output response = Some "" →
  lastObservation response = None ∨ lastObservation response = Some "" →
  post_api_chat executor {| input := JString s |} =
  ([ConsoleLog "User input:" (LValue (JString s));
    Invoke (JString s);
    ConsoleLog "Agent full response:" (LResult response)],
   inr {| status := 500;
          body := {| output := JString "I couldn't process your request. Please try asking for a specific menu like 'breakfast menu' or 'evening snacks menu'." |} |}).
Proof.
  intros Hs He Hout Hobs.
  rewrite (post_api_chat_invokes executor s Hs), He.
  assert (Hc : completed response = false)
    by (unfold completed; now rewrite Hout).
  rewrite (interpret_fallback response Hc).
  now destruct Hobs as [-> | ->].
Qed.

Lemma post_api_chat_empty_output_witness :
  let response :=
    {| Agent.output := Some "";
       Agent.intermediateSteps := Some [eveningStep (Some "")] |} in
  post_api_chat (answering response) {| input := JString "menu" |} =
  ([ConsoleLog "User input:" (LValue (JString "menu"));
    Invoke (JString "menu");
    ConsoleLog "Agent full response:" (LResult response)],
   inr {| status := 500;
          body := {| output := JString "I couldn't process your request. Please try asking for a specific menu like 'breakfast menu' or 'evening snacks menu'." |} |}).
Proof.
  intros response.
  apply (post_api_chat_empty_output (answering response) "menu" response).
  - vm_compute. discriminate.
  - reflexivity.
  - reflexivity.
  - right. reflexivity.
Defined.

(** * Further properties *)

(** ** Normalization of the category *)

Section Normalization.

Lemma lowerCodeUnit_not_upper (c : ascii) : isUpper (lowerCodeUnit c) = false.
Proof. destruct c as [[] [] [] [] [] [] [] []]; vm_compute; reflexivity. Qed.

Lemma lowerCodeUnit_whiteSpace (c : ascii) :
  isWhiteSpace (lowerCodeUnit c) = isWhiteSpace c.
Proof. destruct c as [[] [] [] [] [] [] [] []]; vm_compute; reflexivity. Qed.

Lemma lowerCodeUnit_fixed (c : ascii) : isUpper c = false → lowerCodeUnit c = c.
Proof. intros H. unfold lowerCodeUnit. now rewrite H. Qed.

Lemma toLowerCase_noCapital (s : string) : noCapital (toLowerCase s) = true.
Proof.
  induction s as [|c s IH]; [reflexivity |].
  unfold noCapital in *. simpl. now rewrite lowerCodeUnit_not_upper, IH.
Qed.

Lemma toLowerCase_fixed (s : string) : noCapital s = true → toLowerCase s = s.
Proof.
  induction s as [|c s IH]; [reflexivity |].
  unfold noCapital in *. simpl. intros H.
  apply andb_prop in H as [Hc Hs]. apply negb_true_iff in Hc.
  now rewrite (lowerCodeUnit_fixed c Hc), IH.
Qed.

Lemma toLowerCase_idempotent (s : string) :
  toLowerCase (toLowerCase s) = toLowerCase s.
Proof. apply toLowerCase_fixed, toLowerCase_noCapital. Qed.

Lemma trimStart_allCodeUnits (p : ascii → bool) (s : string) :
  allCodeUnits p s = true → allCodeUnits p (trimStart s) = true.
Proof.
  induction s as [|c s IH]; [reflexivity |]. intros H. simpl.
  destruct (isWhiteSpace c); [| exact H].
  simpl in H. apply andb_prop in H as [_ Hs]. now apply IH.
Qed.

Lemma trimEnd_allCodeUnits (p : ascii → bool) (s : string) :
  allCodeUnits p s = true → allCodeUnits p (trimEnd s) = true.
Proof.
  induction s as [|c s IH]; [reflexivity |]. intros H.
  simpl in H. apply andb_prop in H as [Hc Hs]. specialize (IH Hs).
  simpl. destruct (trimEnd s) as [|d r] eqn:E.
  - destruct (isWhiteSpace c); [reflexivity |]. simpl. now rewrite Hc.
  - change (p c && allCodeUnits p (String d r) = true). now rewrite Hc, IH.
Qed.

Lemma trim_allCodeUnits (p : ascii → bool) (s : string) :
  allCodeUnits p s = true → allCodeUnits p (trim s) = true.
Proof. intros H. now apply trimEnd_allCodeUnits, trimStart_allCodeUnits. Qed.

Lemma trimStart_toLowerCase (s : string) :
  trimStart (toLowerCase s) = toLowerCase (trimStart s).
Proof.
  induction s as [|c s IH]; [reflexivity |]. simpl.
  rewrite lowerCodeUnit_whiteSpace. now destruct (isWhiteSpace c).
Qed.

Lemma trimEnd_toLowerCase (s : string) :
  trimEnd (toLowerCase s) = toLowerCase (trimEnd s).
Proof.
  induction s as [|c s IH]; [reflexivity |]. simpl.
  rewrite IH, lowerCodeUnit_whiteSpace.
  destruct (trimEnd s) as [|d r]; simpl; [| reflexivity].
  now destruct (isWhiteSpace c).
Qed.

Lemma trim_toLowerCase (s : string) :
  trim (toLowerCase s) = toLowerCase (trim s).
Proof. unfold trim. now rewrite trimStart_toLowerCase, trimEnd_toLowerCase. Qed.

Lemma trimEnd_unfold (c : ascii) (s : string) :
  trimEnd (String c s) =
  match trimEnd s with
  | EmptyString => if isWhiteSpace c then EmptyString else String c EmptyString
  | r => String c r
  end.
Proof. reflexivity. Qed.

Lemma trimEnd_idempotent (s : string) : trimEnd (trimEnd s) = trimEnd s.
Proof.
  induction s as [|c s IH]; [reflexivity |]. simpl.
  destruct (trimEnd s) as [|d r] eqn:E.
  - destruct (isWhiteSpace c) eqn:Hc; [reflexivity |]. simpl. now rewrite Hc.
  - now rewrite trimEnd_unfold, IH.
Qed.

Lemma trimStart_trimEnd_trimStart (s : string) :
  trimStart (trimEnd (trimStart s)) = trimEnd (trimStart s).
Proof.
  induction s as [|c s IH]; [reflexivity |]. simpl.
  destruct (isWhiteSpace c) eqn:Hc; [exact IH |].
  rewrite (trimEnd_cons c s Hc). simpl. now rewrite Hc.
Qed.

Lemma trim_idempotent (s : string) : trim (trim s) = trim s.
Proof.
  unfold trim. now rewrite trimStart_trimEnd_trimStart, trimEnd_idempotent.
Qed.

Lemma trimStart_onlyWhiteSpace (l s : string) :
  onlyWhiteSpace l = true → trimStart (l ++ s) = trimStart s.
Proof.
  induction l as [|c l IH]; [reflexivity |]. intros H.
  unfold onlyWhiteSpace in H. simpl in H. apply andb_prop in H as [Hc Hl].
  rewrite append_cons. simpl. rewrite Hc. now apply IH.
Qed.

Lemma trimEnd_onlyWhiteSpace (r : string) :
  onlyWhiteSpace r = true → trimEnd r = "".
Proof.
  induction r as [|c r IH]; [reflexivity |]. intros H.
  unfold onlyWhiteSpace in H. simpl in H. apply andb_prop in H as [Hc Hr].
  rewrite trimEnd_unfold, (IH Hr). now rewrite Hc.
Qed.

Lemma trimEnd_app_onlyWhiteSpace (s r : string) :
  onlyWhiteSpace r = true → trimEnd (s ++ r) = trimEnd s.
Proof.
  intros Hr. induction s as [|c s IH].
  - now apply trimEnd_onlyWhiteSpace.
  - rewrite append_cons. simpl. now rewrite IH.
Qed.

Lemma trimStart_app (s r : string) :
  trimStart (s ++ r) = trimStart s ++ r ∨
  (trimStart s = "" ∧ trimStart (s ++ r) = trimStart r).
Proof.
  induction s as [|c s IH].
  - right. now split.
  - rewrite append_cons. simpl. destruct (isWhiteSpace c); [exact IH |].
    left. reflexivity.
Qed.

Lemma trim_padding (l s r : string) :
  onlyWhiteSpace l = true → onlyWhiteSpace r = true →
  trim (l ++ s ++ r) = trim s.
Proof.
  intros Hl Hr. unfold trim. rewrite (trimStart_onlyWhiteSpace l _ Hl).
  destruct (trimStart_app s r) as [-> | [Hs ->]].
  - now apply trimEnd_app_onlyWhiteSpace.
  - rewrite Hs.
    apply trimEnd_onlyWhiteSpace.
    now apply trimStart_allCodeUnits.
Qed.

Lemma toLowerCase_app (a b : string) :
  toLowerCase (a ++ b) = toLowerCase a ++ toLowerCase b.
Proof.
  induction a as [|x a IH]; [reflexivity |].
  rewrite !append_cons. simpl. now rewrite IH, append_cons.
Qed.

Lemma toLowerCase_onlyWhiteSpace (s : string) :
  onlyWhiteSpace (toLowerCase s) = onlyWhiteSpace s.
Proof.
  induction s as [|c s IH]; [reflexivity |]. unfold onlyWhiteSpace in *.
  simpl. now rewrite lowerCodeUnit_whiteSpace, IH.
Qed.

Lemma func_normalized (category category' : string) :
  getMenuTool.normalizedCategory category =
  getMenuTool.normalizedCategory category' →
  getMenuTool.func category = getMenuTool.func category'.
Proof. intros H. unfold getMenuTool.func. now rewrite H. Qed.

End Normalization.

(** ** The answers of the menu lookup tool *)

Section MenuAnswers.

Import getMenuTool.

Lemma normalizedCategory_noCapital (category : string) :
  noCapital (normalizedCategory category) = true.
Proof. apply trim_allCodeUnits, toLowerCase_noCapital. Qed.

Lemma menus_own (key description : string) :
  menus !! key = Some description →
  (key, description) ∈
    [ ("breakfast", "Paratha, Tea, Fruits, Bread with Butter");
      ("lunch", "Rice, Dal, Curry, Roti, Salad");
      ("evening", "Samosa, Chutney, Tea, Biscuits");
      ("evening snacks", "Samosa, Chutney, Tea, Biscuits");
      ("dinner", "Biryani, Raita, Papad, Salad") ].
Proof. apply elem_of_list_to_map_2. Qed.

(** Of the inherited property names only two are free of capitals. *)
Lemma ObjectPrototype_noCapital (key : string) (v : JsValue) :
  ObjectPrototype !! key = Some v →
  noCapital key = true →
  (key = "constructor" ∧ v = JBuiltin "Object") ∨
  (key = "__proto__" ∧ v = JBuiltin "Object.prototype").
Proof.
  intros H Hk. apply elem_of_list_to_map_2 in H.
  repeat (apply elem_of_cons in H as [H | H];
          [injection H as -> ->; first [now left | now right | discriminate Hk] |]).
  now apply elem_of_nil in H.
Qed.

(** The decision table of [func], by the normalized category. *)
Lemma func_cases (category : string) :
  let key := normalizedCategory category in
  (includes key "evening" || includes key "snack" = true ∧
   func category = JString "Samosa, Chutney, Tea, Biscuits") ∨
  (includes key "evening" || includes key "snack" = false ∧
   ((key = "breakfast" ∧
     func category = JString "Paratha, Tea, Fruits, Bread with Butter") ∨
    (key = "lunch" ∧ func category = JString "Rice, Dal, Curry, Roti, Salad") ∨
    (key = "dinner" ∧ func category = JString "Biryani, Raita, Papad, Salad") ∨
    (key = "constructor" ∧ func category = JBuiltin "Object") ∨
    (key = "__proto__" ∧ func category = JBuiltin "Object.prototype") ∨
    (menus !! key = None ∧ ObjectPrototype !! key = None ∧
     func category = JString fallback))).
Proof.
  intros key.
  destruct (includes key "evening" || includes key "snack") eqn:Hinc.
  - left. split; [reflexivity |]. now rewrite (func_evening_branch category Hinc).
  - right. split; [reflexivity |].
    apply orb_false_elim in Hinc as [He Hs].
    pose proof (func_lookup_branch category He Hs) as Hf. fold key in Hf.
    pose proof (normalizedCategory_noCapital category) as Hcap. fold key in Hcap.
    clearbody key.
    destruct (menus !! key) as [d|] eqn:Hown.
    + apply menus_own in Hown.
      repeat (apply elem_of_cons in Hown as [Hown | Hown];
              [injection Hown as -> ->;
               first [discriminate He | rewrite Hf; vm_compute; tauto] |]).
      now apply elem_of_nil in Hown.
    + destruct (ObjectPrototype !! key) as [v|] eqn:Hproto.
      * destruct (ObjectPrototype_noCapital key v Hproto Hcap) as [[-> ->] | [-> ->]];
          rewrite Hf; vm_compute; tauto.
      * do 5 right. repeat split; [].
        rewrite Hf. unfold Get. now rewrite Hown, Hproto.
Qed.

End MenuAnswers.

Section NormalizationEnds.

Lemma trimStart_first (s : string) (c : ascii) (rest : string) :
  trimStart s = String c rest → isWhiteSpace c = false.
Proof.
  induction s as [|x s IH]; [discriminate |]. simpl.
  destruct (isWhiteSpace x) eqn:Hx; [exact IH |].
  intros [= -> _]. exact Hx.
Qed.

Lemma trimEnd_first (s : string) (c : ascii) (rest : string) :
  trimEnd s = String c rest → ∃ rest', s = String c rest'.
Proof.
  destruct s as [|x s]; [discriminate |]. rewrite trimEnd_unfold.
  destruct (trimEnd s); [destruct (isWhiteSpace x) |];
    intros [= -> _]; now eexists.
Qed.

Lemma trimEnd_last (s init : string) (c : ascii) :
  trimEnd s = init ++ String c "" → isWhiteSpace c = false.
Proof.
  revert init. induction s as [|x s IH]; intros init.
  - destruct init; discriminate.
  - rewrite trimEnd_unfold. destruct (trimEnd s) as [|d r].
    + destruct (isWhiteSpace x) eqn:Hx.
      * destruct init; discriminate.
      * destruct init as [|y init]; [now intros [= <-] |].
        rewrite append_cons. intros [= _ H]. destruct init; discriminate.
    + destruct init as [|y init]; [discriminate |].
      rewrite append_cons. intros [= _ H]. exact (IH init H).
Qed.

End NormalizationEnds.

(** X1: the normalized category is in canonical form: it holds no capital
    letter, and neither its first nor its last code unit is white space. *)
Theorem normalizedCategory_canonical (category : string) :
  let key := getMenuTool.normalizedCategory category in
  noCapital key = true ∧
  (∀ c rest, key = String c rest → isWhiteSpace c = false) ∧
  (∀ init c, key = init ++ String c "" → isWhiteSpace c = false).
Proof.
  intros key. split; [apply normalizedCategory_noCapital |]. split.
  - intros c rest H. unfold key, getMenuTool.normalizedCategory, trim in H.
    destruct (trimEnd_first _ _ _ H) as [rest' H'].
    exact (trimStart_first _ _ _ H').
  - intros init c H. exact (trimEnd_last _ _ _ H).
Qed.

Lemma normalizedCategory_canonical_witness :
  noCapital (getMenuTool.normalizedCategory "  Lunch ") = true ∧
  isWhiteSpace "l" = false ∧
  isWhiteSpace "h" = false.
Proof.
  destruct (normalizedCategory_canonical "  Lunch ") as (H1 & H2 & H3).
  split; [exact H1 |].
  split; [apply (H2 "l"%char "unch") | apply (H3 "lunc" "h"%char)]; reflexivity.
Defined.

(** X2: normalizing twice is normalizing once, and the tool answers the same
    whether or not its caller has lowercased, trimmed or normalized the
    category beforehand. *)
Theorem func_normalize_first (category : string) :
  getMenuTool.normalizedCategory (getMenuTool.normalizedCategory category) =
    getMenuTool.normalizedCategory category ∧
  getMenuTool.func (getMenuTool.normalizedCategory category) =
    getMenuTool.func category ∧
  getMenuTool.func (toLowerCase category) = getMenuTool.func category ∧
  getMenuTool.func (trim category) = getMenuTool.func category.
Proof.
  assert (Hidem : getMenuTool.normalizedCategory
                    (getMenuTool.normalizedCategory category) =
                  getMenuTool.normalizedCategory category).
  { unfold getMenuTool.normalizedCategory.
    now rewrite trim_toLowerCase, trim_idempotent, <- trim_toLowerCase,
      toLowerCase_idempotent. }
  split; [exact Hidem |]. split; [now apply func_normalized |].
  split; apply func_normalized; unfold getMenuTool.normalizedCategory.
  - now rewrite toLowerCase_idempotent.
  - now rewrite <- trim_toLowerCase, trim_idempotent.
Qed.

(** X3: white space added before and after a category does not change the
    answer of the tool. *)
Theorem func_padding (l category r : string) :
  onlyWhiteSpace l = true →
  onlyWhiteSpace r = true →
  getMenuTool.func (l ++ category ++ r) = getMenuTool.func category.
Proof.
  intros Hl Hr. apply func_normalized. unfold getMenuTool.normalizedCategory.
  rewrite !toLowerCase_app. apply trim_padding.
  - now rewrite toLowerCase_onlyWhiteSpace.
  - now rewrite toLowerCase_onlyWhiteSpace.
Qed.

Lemma func_padding_witness :
  getMenuTool.func ("  " ++ "Lunch" ++ String "010" " ") = getMenuTool.func "Lunch".
Proof.
  apply (func_padding "  " "Lunch" (String "010" " ")); reflexivity.
Defined.

(** X4: the tool has seven possible answers: the four configured descriptions
    (three of them distinct from the evening one), the fallback message, and
    the two inherited values [Object] and [Object.prototype].  None of them is
    falsy. *)
Theorem func_answers (category : string) :
  getMenuTool.func category ∈
    [ JString "Paratha, Tea, Fruits, Bread with Butter";
      JString "Rice, Dal, Curry, Roti, Salad";
      JString "Samosa, Chutney, Tea, Biscuits";
      JString "Biryani, Raita, Papad, Salad";
      JString getMenuTool.fallback;
      JBuiltin "Object";
      JBuiltin "Object.prototype" ] ∧
  truthy (getMenuTool.func category) = true.
Proof.
  destruct (func_cases category)
    as [[_ ->] | [_ [[_ ->] | [[_ ->] | [[_ ->] | [[_ ->] | [[_ ->] | (_ & _ & ->)]]]]]]];
    (split; [set_solver | reflexivity]).
Qed.

(** X5: the evening menu is answered exactly when the normalized category
    contains "evening" or "snack". *)
Theorem func_evening_iff (category : string) :
  getMenuTool.func category = JString "Samosa, Chutney, Tea, Biscuits" ↔
  includes (getMenuTool.normalizedCategory category) "evening" = true ∨
  includes (getMenuTool.normalizedCategory category) "snack" = true.
Proof.
  rewrite <- orb_true_iff.
  destruct (func_cases category)
    as [[Hi ->] | [Hi [[_ ->] | [[_ ->] | [[_ ->] | [[_ ->] | [[_ ->] | (_ & _ & ->)]]]]]]];
    rewrite Hi; split; intros H; (reflexivity || discriminate H).
Qed.

(** X6: the answer is not a string exactly when the category normalizes to
    "constructor" or to "__proto__". *)
Theorem func_not_string_iff (category : string) :
  isString (getMenuTool.func category) = false ↔
  getMenuTool.normalizedCategory category = "constructor" ∨
  getMenuTool.normalizedCategory category = "__proto__".
Proof.
  destruct (func_cases category)
    as [[Hi ->] | [Hi [[Hk ->] | [[Hk ->] | [[Hk ->] | [[Hk ->] | [[Hk ->] | (_ & Hk & ->)]]]]]]];
    split; intros H; try discriminate H; try tauto;
    try (destruct H as [H | H]; rewrite H in *; discriminate).
Qed.

(** X7: the fallback message is answered exactly when the normalized category
    contains neither "evening" nor "snack" and is none of "breakfast",
    "lunch", "dinner", "constructor" and "__proto__". *)
Theorem func_fallback_iff (category : string) :
  getMenuTool.func category = JString getMenuTool.fallback ↔
  includes (getMenuTool.normalizedCategory category) "evening" = false ∧
  includes (getMenuTool.normalizedCategory category) "snack" = false ∧
  getMenuTool.normalizedCategory category ∉
    ["breakfast"; "lunch"; "dinner"; "constructor"; "__proto__"].
Proof.
  rewrite (and_assoc _ _ _), <- orb_false_iff.
  destruct (func_cases category)
    as [[Hi ->] | [Hi [[Hk ->] | [[Hk ->] | [[Hk ->] | [[Hk ->] | [[Hk ->] | (Hown & Hproto & ->)]]]]]]];
    rewrite Hi; (split; [intros H; try discriminate H | intros [H1 H2]; try discriminate H1]);
    try (exfalso; apply H2; rewrite Hk; set_solver).
  - split; [reflexivity |].
    intros Hin.
    repeat (apply elem_of_cons in Hin as [Hin | Hin];
            [rewrite Hin in Hown, Hproto; vm_compute in Hown, Hproto; discriminate |]).
    now apply elem_of_nil in Hin.
  - reflexivity.
Qed.

(** ** Every request, every executor *)

Section HandlerCases.

Variable executor : JsValue → AgentOutcome.

Lemma post_api_chat_nonstring (v : JsValue) :
  truthy v = true → isString v = false →
  post_api_chat executor {| input := v |} =
  ([ConsoleLog "User input:" (LValue v)],
   inl (TypeError "userInput.trim is not a function")).
Proof.
  intros Ht Hs. unfold post_api_chat. cbn [input]. rewrite Ht.
  destruct v; try discriminate; reflexivity.
Qed.

(** The four ways a request can go. *)
Lemma post_api_chat_cases (v : JsValue) :
  (truthy v = false ∧
   post_api_chat executor {| input := v |} =
   ([ConsoleLog "User input:" (LValue v)],
    inr (res_status_json 400 {| output := JString "Please provide a valid input." |}))) ∨
  (∃ s, v = JString s ∧ s ≠ "" ∧ trim s = "" ∧
   post_api_chat executor {| input := v |} =
   ([ConsoleLog "User input:" (LValue v)],
    inr (res_status_json 400 {| output := JString "Please provide a valid input." |}))) ∨
  (truthy v = true ∧ isString v = false ∧
   post_api_chat executor {| input := v |} =
   ([ConsoleLog "User input:" (LValue v)],
    inl (TypeError "userInput.trim is not a function"))) ∨
  (∃ s, v = JString s ∧ trim s ≠ "" ∧
   post_api_chat executor {| input := v |} =
   match executor v with
   | Resolved response =>
       ([ConsoleLog "User input:" (LValue v); Invoke v;
         ConsoleLog "Agent full response:" (LResult response)],
        inr (interpret response))
   | Rejected err =>
       ([ConsoleLog "User input:" (LValue v); Invoke v;
         ConsoleError "Error during agent execution:" (LError err)],
        inr (res_status_json 500 {| output := JString went_wrong |}))
   end).
Proof.
  destruct (truthy v) eqn:Ht.
  - destruct (isString v) eqn:Hs.
    + destruct v as [| | | |s| |]; try discriminate Hs.
      destruct (String.eqb_spec (trim s) "") as [E | E].
      * right. left. exists s. repeat split; [| exact E |].
        -- intros ->. discriminate Ht.
        -- now apply post_api_chat_blank_string.
      * do 3 right. exists s. repeat split; [exact E |].
        now apply post_api_chat_invokes.
    + do 2 right. left. repeat split. now apply post_api_chat_nonstring.
  - left. split; [reflexivity |]. now apply post_api_chat_falsy.
Qed.

Lemma interpret_cases (response : Agent.Result) :
  (∃ out, Agent.output response = Some out ∧ out ≠ "" ∧
          includes out sentinel = false ∧
          interpret response = res_json {| output := JString out |}) ∨
  (completed response = false ∧
   ∃ obs, lastObservation response = Some obs ∧ obs ≠ "" ∧
          interpret response = res_json {| output := JString obs |}) ∨
  (completed response = false ∧
   (lastObservation response = None ∨ lastObservation response = Some "") ∧
   interpret response = couldnt_process_response).
Proof.
  destruct (completed response) eqn:Hc.
  - left. unfold completed in Hc.
    destruct (Agent.output response) as [out|] eqn:Hout; [| discriminate].
    apply andb_prop in Hc as [Hne Hs].
    apply negb_true_iff in Hne, Hs. apply String.eqb_neq in Hne.
    exists out. repeat split; try assumption.
    now apply interpret_completed.
  - right. rewrite (interpret_fallback response Hc).
    destruct (lastObservation response) as [obs|].
    + destruct (String.eqb_spec obs "") as [-> | Hne].
      * right. split; [reflexivity |]. split; [now right | reflexivity].
      * left. split; [reflexivity |]. exists obs. repeat split; [exact Hne |].
        cbn [truthy]. apply String.eqb_neq in Hne. now rewrite Hne.
    + right. split; [reflexivity |]. split; [now left | reflexivity].
Qed.

End HandlerCases.

Lemma func_truthy (category : string) : truthy (getMenuTool.func category) = true.
Proof.
  destruct (func_cases category)
    as [[_ ->] | [_ [[_ ->] | [[_ ->] | [[_ ->] | [[_ ->] | [[_ ->] | (_ & _ & ->)]]]]]]];
    reflexivity.
Qed.

Ltac handler_cases executor v :=
  destruct (post_api_chat_cases executor v)
    as [[Hfalsy E] | [(s & -> & Hne & Hblank & E) | [(Htruthy & Hnostr & E) | (s & -> & Hnonblank & E)]]].

(** X8: the handler leaves an error uncaught, and sends nothing, exactly when
    [input] is truthy and not a string. *)
Theorem post_api_chat_uncaught_iff
    (executor : JsValue → AgentOutcome) (req : ChatRequest) :
  (∃ err, snd (post_api_chat executor req) = inl err) ↔
  truthy (input req) = true ∧ isString (input req) = false.
Proof.
  destruct req as [v]. cbn [input].
  handler_cases executor v; rewrite E; cbn [snd].
  - split; [intros [err H]; discriminate H | intros [H _]; congruence].
  - split; [intros [err H]; discriminate H | intros [_ H]; discriminate H].
  - split; [now intros _ | intros _; now eexists].
  - split; [| intros [_ H]; discriminate H].
    intros [err H]. destruct (executor (JString s)); discriminate H.
Qed.

(** X9: what a request writes to the console and asks of the executor: the raw
    input is logged first; a non-blank string is then passed on unchanged,
    once, and the answer or the error of the executor is logged. *)
Theorem post_api_chat_trace
    (executor : JsValue → AgentOutcome) (req : ChatRequest) :
  fst (post_api_chat executor req) =
  ConsoleLog "User input:" (LValue (input req)) ::
  match input req with
  | JString s =>
      if String.eqb (trim s) "" then []
      else [ Invoke (JString s);
             match executor (JString s) with
             | Resolved response =>
                 ConsoleLog "Agent full response:" (LResult response)
             | Rejected err =>
                 ConsoleError "Error during agent execution:" (LError err)
             end ]
  | _ => []
  end.
Proof.
  destruct req as [v]. cbn [input].
  handler_cases executor v; rewrite E; cbn [fst].
  - destruct v as [| | | |s| |]; try reflexivity.
    cbn [truthy] in Hfalsy. apply negb_false_iff, String.eqb_eq in Hfalsy as ->.
    reflexivity.
  - now rewrite Hblank.
  - destruct v; try reflexivity. discriminate Hnostr.
  - apply String.eqb_neq in Hnonblank. rewrite Hnonblank.
    now destruct (executor (JString s)).
Qed.

(** X10: the executor is called at most once per request, with the input as it
    was received (not trimmed), and only for a string that is not blank. *)
Theorem post_api_chat_invocations
    (executor : JsValue → AgentOutcome) (req : ChatRequest) :
  invocations (fst (post_api_chat executor req)) =
  match input req with
  | JString s => if String.eqb (trim s) "" then [] else [JString s]
  | _ => []
  end.
Proof.
  destruct req as [v]. cbn [input].
  handler_cases executor v; rewrite E; cbn [fst invocations].
  - destruct v as [| | | |s| |]; try reflexivity.
    cbn [truthy] in Hfalsy. apply negb_false_iff, String.eqb_eq in Hfalsy as ->.
    reflexivity.
  - now rewrite Hblank.
  - destruct v; try reflexivity. discriminate Hnostr.
  - apply String.eqb_neq in Hnonblank. rewrite Hnonblank.
    now destruct (executor (JString s)).
Qed.

(** X11: whatever the handler sends is one of four things: the 400 "valid input"
    message, the 500 retry message, the 500 "couldn't process" message, or
    200 with a non-empty text that the executor delivered, as its output
    (free of the sentinel) or as the observation of its last step. *)
Theorem post_api_chat_responses
    (executor : JsValue → AgentOutcome) (req : ChatRequest)
    (trace : list Event) (response : HttpResponse) :
  post_api_chat executor req = (trace, inr response) →
  response = res_status_json 400 {| output := JString "Please provide a valid input." |} ∨
  response = res_status_json 500 {| output := JString went_wrong |} ∨
  response = res_status_json 500 {| output := JString couldnt_process |} ∨
  ∃ text agentResult,
    response = res_json {| output := JString text |} ∧
    text ≠ "" ∧
    executor (input req) = Resolved agentResult ∧
    ((Agent.output agentResult = Some text ∧ includes text sentinel = false) ∨
     lastObservation agentResult = Some text).
Proof.
  destruct req as [v]. cbn [input].
  handler_cases executor v; rewrite E.
  - intros [= _ <-]. now left.
  - intros [= _ <-]. now left.
  - discriminate.
  - destruct (executor (JString s)) as [agentResult | err] eqn:He.
    + intros [= _ <-].
      destruct (interpret_cases agentResult)
        as [(out & Hout & Hne & Hs & ->) | [(_ & obs & Hobs & Hne & ->) | (_ & _ & ->)]].
      * do 3 right. exists out, agentResult. repeat split; [exact Hne |]. now left.
      * do 3 right. exists obs, agentResult. repeat split; [exact Hne |]. now right.
      * do 2 right. now left.
    + intros [= _ <-]. right. now left.
Qed.

Lemma post_api_chat_responses_witness :
  let agentResult :=
    {| Agent.output := None;
       Agent.intermediateSteps := Some [eveningStep (Some "Samosa, Chutney, Tea, Biscuits")] |} in
  let response := res_json {| output := JString "Samosa, Chutney, Tea, Biscuits" |} in
  response = res_status_json 400 {| output := JString "Please provide a valid input." |} ∨
  response = res_status_json 500 {| output := JString went_wrong |} ∨
  response = res_status_json 500 {| output := JString couldnt_process |} ∨
  ∃ text agentResult',
    response = res_json {| output := JString text |} ∧
    text ≠ "" ∧
    answering agentResult (JString "menu") = Resolved agentResult' ∧
    ((Agent.output agentResult' = Some text ∧ includes text sentinel = false) ∨
     lastObservation agentResult' = Some text).
Proof.
  intros agentResult response.
  apply (post_api_chat_responses (answering agentResult) {| input := JString "menu" |}
           [ConsoleLog "User input:" (LValue (JString "menu"));
            Invoke (JString "menu");
            ConsoleLog "Agent full response:" (LResult agentResult)]
           response).
  reflexivity.
Defined.

(** X12: status 400 is sent exactly when [input] is falsy (missing, null, false,
    zero, the empty string) or a string that trims to nothing. *)
Theorem post_api_chat_400_iff
    (executor : JsValue → AgentOutcome) (req : ChatRequest) :
  (∃ response, snd (post_api_chat executor req) = inr response ∧ status response = 400) ↔
  truthy (input req) = false ∨ ∃ s, input req = JString s ∧ trim s = "".
Proof.
  destruct req as [v]. cbn [input].
  handler_cases executor v; rewrite E; cbn [snd].
  - split; [now left | intros _; now eexists].
  - split; [intros _; right; now exists s | intros _; now eexists].
  - split; [intros (response & H & _); discriminate H |].
    intros [H | (s & -> & _)]; [congruence | discriminate Hnostr].
  - split.
    + intros (response & H & Hst). exfalso.
      destruct (executor (JString s)) as [agentResult | err].
      * injection H as <-.
        destruct (interpret_cases agentResult)
          as [(out & _ & _ & _ & Hi) | [(_ & obs & _ & _ & Hi) | (_ & _ & Hi)]];
          rewrite Hi in Hst; discriminate Hst.
      * injection H as <-. discriminate Hst.
    + intros [H | (s' & [= <-] & H)]; [| contradiction].
      exfalso. destruct (trim_nonblank s Hnonblank) as [Ht _]. congruence.
Qed.

(** X13: the 500 retry message is sent exactly when the executor was called and
    threw. *)
Theorem post_api_chat_retry_iff
    (executor : JsValue → AgentOutcome) (req : ChatRequest) :
  snd (post_api_chat executor req) =
    inr (res_status_json 500 {| output := JString went_wrong |}) ↔
  ∃ s err, input req = JString s ∧ trim s ≠ "" ∧ executor (JString s) = Rejected err.
Proof.
  destruct req as [v]. cbn [input].
  handler_cases executor v; rewrite E; cbn [snd].
  - split; [discriminate |]. intros (s & err & -> & Hs & _).
    destruct (trim_nonblank s Hs) as [Ht _]. congruence.
  - split; [discriminate |]. intros (s' & err & [= <-] & Hs & _). contradiction.
  - split; [discriminate |]. intros (s & err & -> & _). discriminate Hnostr.
  - destruct (executor (JString s)) as [agentResult | err] eqn:He.
    + split.
      * intros [= H]. exfalso.
        destruct (interpret_cases agentResult)
          as [(out & _ & _ & _ & Hi) | [(_ & obs & _ & _ & Hi) | (_ & _ & Hi)]];
          rewrite Hi in H; discriminate H.
      * intros (s' & err & [= <-] & _ & H). congruence.
    + split; [| reflexivity]. intros _. now exists s, err.
Qed.

(** X14: only the last intermediate step counts: the steps before it never change
    the response. *)
Theorem interpret_only_last_step
    (out : option string) (earlier : list Agent.Step) (lastStep : Agent.Step) :
  interpret {| Agent.output := out;
               Agent.intermediateSteps := Some (earlier ++ [lastStep])%list |} =
  interpret {| Agent.output := out;
               Agent.intermediateSteps := Some [lastStep] |}.
Proof.
  set (r1 := {| Agent.output := out;
                Agent.intermediateSteps := Some (earlier ++ [lastStep])%list |}).
  set (r2 := {| Agent.output := out; Agent.intermediateSteps := Some [lastStep] |}).
  assert (Hc : completed r1 = completed r2) by reflexivity.
  destruct (completed r2) eqn:H2.
  - unfold interpret. now rewrite Hc, H2.
  - rewrite (interpret_fallback r1 Hc), (interpret_fallback r2 H2).
    unfold lastObservation, r1, r2. cbn [Agent.intermediateSteps mbind option_bind].
    now rewrite last_snoc.
Qed.

(** X15: the handler and the tool together: when the agent did not complete and
    the observation of its last step is an answer of the menu tool, the
    handler sends that answer with status 200. *)
Theorem post_api_chat_surfaces_tool_answer
    (executor : JsValue → AgentOutcome) (s : string)
    (response : Agent.Result) (category text : string) :
  trim s ≠ "" →
  executor (JString s) = Resolved response →
  completed response = false →
  lastObservation response = Some text →
  getMenuTool.func category = JString text →
  snd (post_api_chat executor {| input := JString s |}) =
  inr {| status := 200; body := {| output := JString text |} |}.
Proof.
  intros Hs He Hc Hobs Hf.
  rewrite (post_api_chat_invokes executor s Hs), He. cbn [snd].
  rewrite (interpret_fallback response Hc), Hobs.
  pose proof (func_truthy category) as Ht. rewrite Hf in Ht. now rewrite Ht.
Qed.

Lemma post_api_chat_surfaces_tool_answer_witness :
  snd (post_api_chat
         (answering {| Agent.output := Some "agent stopped due to max iterations.";
                       Agent.intermediateSteps :=
                         Some [eveningStep (Some "Samosa, Chutney, Tea, Biscuits")] |})
         {| input := JString "any snacks?" |}) =
  inr {| status := 200; body := {| output := JString "Samosa, Chutney, Tea, Biscuits" |} |}.
Proof.
  apply (post_api_chat_surfaces_tool_answer _ "any snacks?"
           {| Agent.output := Some "agent stopped due to max iterations.";
              Agent.intermediateSteps :=
                Some [eveningStep (Some "Samosa, Chutney, Tea, Biscuits")] |}
           " Evening Snacks " "Samosa, Chutney, Tea, Biscuits").
  - vm_compute. discriminate.
  - reflexivity.
  - vm_compute. reflexivity.
  - reflexivity.
  - vm_compute. reflexivity.
Defined.

(** X16: the 500 "couldn't process" message is sent exactly when the
    executor answered, its output failed the primary test, and the last step
    has no observation or an empty one (or there is no step at all). *)
Theorem post_api_chat_couldnt_process_iff
    (executor : JsValue → AgentOutcome) (req : ChatRequest) :
  snd (post_api_chat executor req) =
    inr (res_status_json 500 {| output := JString couldnt_process |}) ↔
  ∃ s response,
    input req = JString s ∧ trim s ≠ "" ∧
    executor (JString s) = Resolved response ∧
    completed response = false ∧
    (lastObservation response = None ∨ lastObservation response = Some "").
Proof.
  destruct req as [v]. cbn [input].
  handler_cases executor v; rewrite E; cbn [snd].
  - split; [discriminate |]. intros (s & r & -> & Hs & _).
    destruct (trim_nonblank s Hs) as [Ht _]. congruence.
  - split; [discriminate |]. intros (s' & r & [= <-] & Hs & _). contradiction.
  - split; [discriminate |]. intros (s & r & -> & _). discriminate Hnostr.
  - destruct (executor (JString s)) as [agentResult | err] eqn:He.
    + destruct (interpret_cases agentResult)
        as [(out & Hout & Hne & Hsent & Hi) | [(Hc & obs & Hobs & Hne & Hi) | (Hc & Hobs & Hi)]];
        rewrite Hi.
      * split; [discriminate |].
        intros (s' & r & [= <-] & _ & Hr & Hc & _).
        rewrite He in Hr. injection Hr as <-.
        unfold completed in Hc. rewrite Hout, Hsent in Hc. cbn [truthy] in Hc.
        apply String.eqb_neq in Hne. rewrite Hne in Hc. discriminate Hc.
      * split; [discriminate |].
        intros (s' & r & [= <-] & _ & Hr & _ & H).
        rewrite He in Hr. injection Hr as <-.
        destruct H as [H | H]; congruence.
      * split; [| reflexivity]. intros _. now exists s, agentResult.
    + split; [discriminate |].
      intros (s' & r & [= <-] & _ & H & _). congruence.
Qed.
